(** * Outreach batch pipeline: scheduler, email state, batch manager,
      delivery task and match scoring.

    Shallow embedding of
    - backend/services/email/scheduler.py      (EmailScheduler)
    - backend/models/email.py                  (Email.update_status,
                                                Email.mark_failed,
                                                EmailBatch.update_counts)
    - backend/services/email/batch_manager.py  (BatchManager)
    - backend/tasks/email_tasks.py             (send_email_batch_task)
    - backend/services/ai/matching_engine.py   (MatchingEngine). *)

From Stdlib Require Import List ZArith QArith Lia Bool String Ascii
  Permutation Sorting.Sorted.
Import ListNotations.

Open Scope Z_scope.

(* ------------------------------------------------------------------ *)
(** ** Datetimes *)

(** A (wall-clock) datetime is the number of microseconds since
    0001-01-01 00:00:00.  pytz-aware datetimes add a timedelta on the
    wall clock and keep their offset, so the same model serves naive and
    aware datetimes.  Python's [datetime] only covers the years 1..9999;
    an addition leaving that range raises [OverflowError] ([None]). *)
Module DT.

Definition MINUTE : Z := 60000000.
Definition HOUR : Z := 60 * MINUTE.
Definition DAY : Z := 24 * HOUR.

(** [date(9999, 12, 31).toordinal() = 3652059]. *)
Definition MAX : Z := 3652059 * DAY - 1.

Definition in_range (t : Z) : bool := (0 <=? t) && (t <=? MAX).

(** [t + timedelta(microseconds=d)]. *)
Definition add (t d : Z) : option Z :=
  if in_range (t + d) then Some (t + d) else None.

(** [t.hour]. *)
Definition hour (t : Z) : Z := (t / HOUR) mod 24.

(** [t.replace(hour=h, minute=0, second=0, microsecond=0)]. *)
Definition replace_hour (t h : Z) : Z := (t / DAY) * DAY + h * HOUR.

(** [datetime(y, m, d, hh, mm)] by its day ordinal (1 = 0001-01-01). *)
Definition at_ (ordinal hh mm : Z) : Z :=
  (ordinal - 1) * DAY + hh * HOUR + mm * MINUTE.

End DT.

(* ------------------------------------------------------------------ *)
(** ** EmailScheduler (scheduler.py) *)

Module Scheduler.

(** [OPTIMAL_HOURS = list(range(9, 18))]. *)
Definition OPTIMAL_HOURS : list Z := map Z.of_nat (seq 9 9).

Definition in_optimal (h : Z) : bool := existsb (Z.eqb h) OPTIMAL_HOURS.

(** [schedule_email(timezone, preferred_hour)], with [now] the value of
    [datetime.now(tz)] (an unknown timezone name falls back to UTC before
    [now] is read) and [preferred_hour = None] encoded as [0], which is
    falsy in Python exactly as [None] is. *)
Definition schedule_email (now : Z) (preferred_hour : Z) : option Z :=
  if negb (preferred_hour =? 0) && in_optimal preferred_hour then
    let scheduled := DT.replace_hour now preferred_hour in
    if scheduled <=? now then DT.add scheduled DT.DAY else Some scheduled
  else
    let current_hour := DT.hour now in
    if in_optimal current_hour then DT.add now DT.MINUTE
    else if current_hour <? 9 then Some (DT.replace_hour now 9)
    else option_map (fun t => DT.replace_hour t 9) (DT.add now DT.DAY).

(** The [while current_time.hour not in OPTIMAL_HOURS] loop of
    [schedule_batch]: move to the next day's 09:00.  It is given fuel 2;
    [skip_loop_exits] shows the second round always finds hour 9, so the
    fuel never runs out. *)
Fixpoint skip_loop (fuel : nat) (t : Z) : option Z :=
  match fuel with
  | O => Some t
  | S f =>
      if in_optimal (DT.hour t) then Some t
      else match DT.add t DT.DAY with
           | None => None
           | Some t' => skip_loop f (DT.replace_hour t' 9)
           end
  end.

Definition skip_non_optimal (t : Z) : option Z := skip_loop 2 t.

(** The [for i in range(batch_size)] loop: append, advance by the
    interval, skip non-optimal hours. *)
Fixpoint batch_loop (n : nat) (interval_minutes : Z) (current : Z)
  : option (list Z) :=
  match n with
  | O => Some []
  | S n' =>
      match DT.add current (interval_minutes * DT.MINUTE) with
      | None => None
      | Some c1 =>
          match skip_non_optimal c1 with
          | None => None
          | Some c2 =>
              option_map (cons current) (batch_loop n' interval_minutes c2)
          end
      end
  end.

(** [schedule_batch(batch_size, interval_minutes, timezone, start_time)];
    [now] is the clock reading [schedule_email] would take.  A datetime
    is always truthy, so [if not start_time] only fires on [None]. *)
Definition schedule_batch (now : Z) (batch_size interval_minutes : Z)
    (start_time : option Z) : option (list Z) :=
  match match start_time with
        | Some s => Some s
        | None => schedule_email now 0
        end with
  | None => None
  | Some start => batch_loop (Z.to_nat batch_size) interval_minutes start
  end.

(** Number of the times of a list inside the window [[lo, hi)]. *)
Fixpoint count_window (lo hi : Z) (l : list Z) : nat :=
  match l with
  | [] => O
  | t :: l' =>
      if (lo <=? t) && (t <? hi) then S (count_window lo hi l')
      else count_window lo hi l'
  end.

(** Consecutive elements related by [R]. *)
Fixpoint chain (R : Z -> Z -> Prop) (l : list Z) : Prop :=
  match l with
  | x :: ((y :: _) as l') => R x y /\ chain R l'
  | _ => True
  end.

(** One round of the loop, from [a] to the next appended time [b]. *)
Definition round (m a b : Z) : Prop :=
  exists c1, DT.add a (m * DT.MINUTE) = Some c1 /\ skip_non_optimal c1 = Some b.

End Scheduler.

(* ------------------------------------------------------------------ *)
(** ** Email and EmailBatch (models/email.py) *)

Inductive EmailStatus :=
  | DRAFT | PENDING_APPROVAL | APPROVED | SCHEDULED | SENDING | SENT
  | DELIVERED | OPENED | REPLIED | FAILED | BOUNCED | REJECTED.

Scheme Equality for EmailStatus.

Definition all_statuses : list EmailStatus :=
  [DRAFT; PENDING_APPROVAL; APPROVED; SCHEDULED; SENDING; SENT;
   DELIVERED; OPENED; REPLIED; FAILED; BOUNCED; REJECTED].

(** The message lifecycle as the specification (sections 3, 4.2 and 4.4)
    describes it: approval, scheduling, claim, outcome, retry, tracking.
    It is not part of the code; it only names the transitions the
    specification's table would contain. *)
Definition spec_lifecycle_allows (a b : EmailStatus) : bool :=
  match a, b with
  | DRAFT, (PENDING_APPROVAL | APPROVED)
  | PENDING_APPROVAL, APPROVED
  | APPROVED, SCHEDULED
  | SCHEDULED, SENDING
  | SENDING, (SENT | FAILED | BOUNCED | SCHEDULED)
  | FAILED, SCHEDULED
  | SENT, DELIVERED
  | DELIVERED, OPENED
  | OPENED, REPLIED => true
  | _, _ => false
  end.

Module Email.

(** One entry of [status_history]. *)
Record history_entry := mkHistory {
  from_status : EmailStatus;
  to_status : EmailStatus;
  timestamp : Z;
  notes : option string }.

(** The columns of [Email] the pipeline reads or writes (content,
    template, analytics and approval columns are left out). *)
Record t := mkEmail {
  id : nat;
  batch_id : option nat;
  status : EmailStatus;
  status_history : list history_entry;
  sent_at : option Z;
  delivered_at : option Z;
  opened_at : option Z;
  last_opened_at : option Z;
  open_count : Z;
  replied_at : option Z;
  retry_count : Z;
  error_message : option string;
  error_code : option string;
  last_error : option Z }.

(** [Email.update_status(new_status, notes)].  [ts] and [now] are the two
    [datetime.utcnow()] readings (history timestamp, then field stamps). *)
Definition update_status (e : t) (new_status : EmailStatus) (notes : option string)
    (ts now : Z) : t :=
  let old_status := status e in
  let history := status_history e ++ [mkHistory old_status new_status ts notes] in
  {| id := id e;
     batch_id := batch_id e;
     status := new_status;
     status_history := history;
     sent_at := if EmailStatus_beq new_status SENT then Some now else sent_at e;
     delivered_at :=
       if EmailStatus_beq new_status DELIVERED then Some now else delivered_at e;
     opened_at :=
       if EmailStatus_beq new_status OPENED then
         match opened_at e with None => Some now | Some o => Some o end
       else opened_at e;
     last_opened_at :=
       if EmailStatus_beq new_status OPENED then Some now else last_opened_at e;
     open_count :=
       if EmailStatus_beq new_status OPENED then open_count e + 1 else open_count e;
     replied_at :=
       if EmailStatus_beq new_status REPLIED then Some now else replied_at e;
     retry_count := retry_count e;
     error_message := error_message e;
     error_code := error_code e;
     last_error := last_error e |}.

(** [Email.mark_failed(error_message, error_code)]. *)
Definition mark_failed (e : t) (msg : string) (code : option string)
    (now ts now' : Z) : t :=
  let e1 := {| id := id e; batch_id := batch_id e; status := status e;
               status_history := status_history e; sent_at := sent_at e;
               delivered_at := delivered_at e; opened_at := opened_at e;
               last_opened_at := last_opened_at e; open_count := open_count e;
               replied_at := replied_at e;
               retry_count := retry_count e + 1;
               error_message := Some msg; error_code := code;
               last_error := Some now |} in
  update_status e1 FAILED (Some ("Failed: " ++ msg)%string) ts now'.

(** A freshly created email row in the given status. *)
Definition fresh (i : nat) (b : option nat) (st : EmailStatus) : t :=
  mkEmail i b st [] None None None None 0 None 0 None None None.

End Email.

Module EmailBatch.

(** The counter and status columns of [EmailBatch]; [status] is a
    [String(50)] column. *)
Record t := mkBatch {
  id : nat;
  total_count : Z;
  draft_count : Z;
  approved_count : Z;
  sent_count : Z;
  delivered_count : Z;
  opened_count : Z;
  replied_count : Z;
  failed_count : Z;
  status : string }.

Definition count_status (st : EmailStatus) (es : list Email.t) : Z :=
  Z.of_nat (List.length (filter (fun e => EmailStatus_beq (Email.status e) st) es)).

(** [session.query(Email.status, func.count(Email.id)).filter(Email.batch_id
    == self.id).group_by(Email.status).all()]: one row per status present. *)
Definition batch_emails (bid : nat) (es : list Email.t) : list Email.t :=
  filter (fun e => match Email.batch_id e with
                   | Some b => Nat.eqb b bid | None => false end) es.

Definition status_groups (bid : nat) (es : list Email.t) : list (EmailStatus * Z) :=
  let mine := batch_emails bid es in
  filter (fun p => 0 <? snd p) (map (fun st => (st, count_status st mine)) all_statuses).

(** Body of the [for status, count in counts] loop. *)
Definition count_row (b : t) (row : EmailStatus * Z) : t :=
  let (st, c) := row in
  let tot := total_count b + c in
  match st with
  | DRAFT => mkBatch (id b) tot c (approved_count b) (sent_count b)
               (delivered_count b) (opened_count b) (replied_count b) (failed_count b) (status b)
  | APPROVED => mkBatch (id b) tot (draft_count b) c (sent_count b)
               (delivered_count b) (opened_count b) (replied_count b) (failed_count b) (status b)
  | SENT => mkBatch (id b) tot (draft_count b) (approved_count b) c
               (delivered_count b) (opened_count b) (replied_count b) (failed_count b) (status b)
  | DELIVERED => mkBatch (id b) tot (draft_count b) (approved_count b) (sent_count b)
               c (opened_count b) (replied_count b) (failed_count b) (status b)
  | OPENED => mkBatch (id b) tot (draft_count b) (approved_count b) (sent_count b)
               (delivered_count b) c (replied_count b) (failed_count b) (status b)
  | REPLIED => mkBatch (id b) tot (draft_count b) (approved_count b) (sent_count b)
               (delivered_count b) (opened_count b) c (failed_count b) (status b)
  | FAILED | BOUNCED => mkBatch (id b) tot (draft_count b) (approved_count b) (sent_count b)
               (delivered_count b) (opened_count b) (replied_count b) (failed_count b + c) (status b)
  | _ => mkBatch (id b) tot (draft_count b) (approved_count b) (sent_count b)
               (delivered_count b) (opened_count b) (replied_count b) (failed_count b) (status b)
  end.


(** [EmailBatch.update_counts(session)] over the email table [es]. *)
Definition update_counts (es : list Email.t) (b : t) : t :=
  let reset := mkBatch (id b) 0 0 0 0 0 0 0 0 (status b) in
  fold_left count_row (status_groups (id b) es) reset.

End EmailBatch.

(* ------------------------------------------------------------------ *)
(** ** BatchManager (services/email/batch_manager.py) *)

Module BatchManager.

(* The methods are embedded as they act on the two tables, with
   [db.session] and the models' [query] attributes read as Flask-SQLAlchemy
   provides them (models/__init__.py itself exports no [db]). *)

(** The two tables.  [Email.query.get(i)] is the row with id [i];
    [EmailBatch.query.get(b)] the batch row with id [b]. *)
Record Store := mkStore { emails : list Email.t; batches : list EmailBatch.t }.

Definition get_email (s : Store) (i : nat) : option Email.t :=
  find (fun e => Nat.eqb (Email.id e) i) (emails s).

Definition put_email (s : Store) (e : Email.t) : Store :=
  mkStore (map (fun e0 => if Nat.eqb (Email.id e0) (Email.id e) then e else e0) (emails s))
          (batches s).

Definition get_batch (s : Store) (b : nat) : option EmailBatch.t :=
  find (fun x => Nat.eqb (EmailBatch.id x) b) (batches s).

Definition put_batch (s : Store) (b : EmailBatch.t) : Store :=
  mkStore (emails s)
          (map (fun x => if Nat.eqb (EmailBatch.id x) (EmailBatch.id b) then b else x)
               (batches s)).

(** The value an [Enum(EmailStatus)] column stores for a member: its name.
    A plain string compared with the column is bound unchanged (SQLAlchemy
    passes through strings that name no member), so [filter_by(status=x)]
    compares the stored name with [x]. *)
Definition status_name (st : EmailStatus) : string :=
  match st with
  | DRAFT => "DRAFT"
  | PENDING_APPROVAL => "PENDING_APPROVAL"
  | APPROVED => "APPROVED"
  | SCHEDULED => "SCHEDULED"
  | SENDING => "SENDING"
  | SENT => "SENT"
  | DELIVERED => "DELIVERED"
  | OPENED => "OPENED"
  | REPLIED => "REPLIED"
  | FAILED => "FAILED"
  | BOUNCED => "BOUNCED"
  | REJECTED => "REJECTED"
  end.

(** [get_batch_emails(batch_id, status)]: [Email.query.filter_by(batch_id=
    batch_id)], then [filter_by(status=status)] when [status] is truthy
    ([None] and [''] are not). *)
Definition get_batch_emails (s : Store) (batch_id : nat) (status : option string)
  : list Email.t :=
  filter (fun e => match Email.batch_id e with
                   | Some b => Nat.eqb b batch_id | None => false end &&
                   match status with
                   | Some x => if String.eqb x "" then true
                               else String.eqb (status_name (Email.status e)) x
                   | None => true end)
         (emails s).


End BatchManager.

(* ------------------------------------------------------------------ *)
(** ** send_email_batch_task (tasks/email_tasks.py) *)

Module EmailTasks.
Import BatchManager.



End EmailTasks.


(* ------------------------------------------------------------------ *)
(** ** MatchingEngine (services/ai/matching_engine.py) *)

Module Matching.
Local Open Scope string_scope.
Open Scope Q_scope.

(** [set([i.lower() for i in xs])] for a lower-casing function [lower]. *)
Definition py_set (lower : string -> string) (xs : list string) : list string :=
  nodup string_dec (map lower xs).

Definition intersection (a b : list string) : list string :=
  filter (fun x => existsb (String.eqb x) b) a.

Definition union (a b : list string) : list string := nodup string_dec (a ++ b).

(** [round(x, 2)]: round half to even at two decimals.  Float arithmetic
    is modelled over exact rationals. *)
Definition round2 (q : Q) : Q :=
  let n := (Qnum q * 100)%Z in
  let d := Zpos (Qden q) in
  let fl := (n / d)%Z in
  let r := (n mod d)%Z in
  let k := if (2 * r <? d)%Z then fl
           else if (d <? 2 * r)%Z then (fl + 1)%Z
           else if Z.even fl then fl else (fl + 1)%Z in
  k # 100.

(** A JSON [score] value of the reply: a finite number (JSON numbers, and
    [true]/[false] as 1/0), one of the non-finite floats [NaN], [Infinity]
    and [-Infinity] that [json.loads] accepts, or any other value. *)
Inductive JScore := JNum (q : Q) | JNaN | JInf | JNegInf | JNonNum.

(** What [self.gemini.generate_text(prompt, max_tokens=500)] yields. *)
Inductive Reply :=
  | Raises                         (* the call raises *)
  | Falsy                          (* [None] or [''] *)
  | NotJson                        (* [json.loads] fails *)
  | JsonNonDict                    (* valid JSON that is no object *)
  | JsonDict (score : option JScore). (* an object, with or without ['score'] *)

(** [max(0, min(100, s))] on a finite number. *)
Definition clamp (s : Q) : Q :=
  let m := if Qlt_le_dec s 100 then s else 100 in
  if Qlt_le_dec 0 m then m else 0.

(** [max(0, min(100, result['score']))]: [min] keeps [100] unless the
    score compares smaller, which [NaN] never does; a value that does not
    compare with numbers raises [TypeError] ([None]). *)
Definition clamp_score (j : JScore) : option Q :=
  match j with
  | JNum s => Some (clamp s)
  | JNaN | JInf => Some 100
  | JNegInf => Some 0
  | JNonNum => None
  end.

(** The returned dictionary, reduced to its ['score'] entry. *)
Record MatchResult := mkResult { score : option Q }.

Fixpoint join (sep : string) (l : list string) : string :=
  match l with
  | [] => ""
  | [x] => x
  | x :: l' => x ++ sep ++ join sep l'
  end.

(** [", ".join(xs) if xs else ""]: [None] and [[]] are falsy. *)
Definition interests_text (xs : option (list string)) : string :=
  match xs with
  | Some ((_ :: _) as l) => join ", " l
  | _ => ""
  end.

Definition newline : string := String (ascii_of_nat 10) "".

(** [pub_text]: the titles [pub.get('title', '')] of the first five
    publications ([None] for a publication without a title). *)
Definition pub_text (pubs : list (option string)) : string :=
  match pubs with
  | [] => ""
  | _ => newline ++ "Professor's recent publications: " ++
         join ", " (map (fun t => match t with Some x => x | None => "" end)
                        (firstn 5 pubs))
  end.

(** A professor dictionary: its id, [prof.get('research_interests', [])]
    ([None] when the key holds [None]) and the titles of
    [prof.get('publications', [])]. *)
Record Professor := mkProfessor {
  prof_id : nat;
  research_interests : option (list string);
  publications : list (option string) }.

Section Engine.

(** [str.lower], applied to each interest.  It is a parameter: every
    theorem about the engine holds for all lower-casing functions. *)
Variable lower : string -> string.

(** The text generator, as a function of the three texts the prompt
    template interpolates: the user's interests, the professor's
    interests and the publication line.  The template itself is a fixed
    string around them. *)
Variable generate_text : string -> string -> string -> Reply.

(** [_fallback_matching(user_interests, professor_interests)]; [None]
    stands for a [None] list, on which the comprehension raises
    [TypeError] and the [except] branch answers [50.0]. *)
Definition fallback_score (user_interests professor_interests : option (list string)) : Q :=
  match user_interests, professor_interests with
  | Some u, Some p =>
      let user_set := py_set lower u in
      let prof_set := py_set lower p in
      let overlap_count := List.length (intersection user_set prof_set) in
      let total := List.length (union user_set prof_set) in
      let score := if Nat.ltb 0 total
                   then inject_Z (Z.of_nat overlap_count) / inject_Z (Z.of_nat total) * 100
                   else 0 in
      round2 score
  | _, _ => 50
  end.

(** [calculate_match_score(user_interests, professor_interests,
    professor_publications)].  Building the texts never raises; a reply
    that is not an object reaches [result.get] or ['score' in result] and
    raises, which the outer [except] turns into the fallback, as it does
    for a score that does not compare with numbers.  An object without
    ['score'] is returned as it is. *)
Definition calculate_match_score (user_interests professor_interests : option (list string))
    (professor_publications : list (option string)) : option MatchResult :=
  let fallback := Some (mkResult (Some (fallback_score user_interests professor_interests))) in
  match generate_text (interests_text user_interests) (interests_text professor_interests)
          (pub_text professor_publications) with
  | Raises => fallback
  | Falsy => None
  | NotJson | JsonNonDict => fallback
  | JsonDict None => Some (mkResult None)
  | JsonDict (Some j) =>
      match clamp_score j with
      | Some q => Some (mkResult (Some q))
      | None => fallback
      end
  end.

(** [prof['match_score']]: [match_result.get('score', 0)] when the result
    is truthy, [0] otherwise (an empty result dictionary also scores 0). *)
Definition result_score (r : option MatchResult) : Q :=
  match r with
  | Some m => match score m with Some q => q | None => 0 end
  | None => 0
  end.

Definition match_score (user_interests : option (list string)) (p : Professor) : Q :=
  result_score (calculate_match_score user_interests (research_interests p) (publications p)).

(** The [for prof in professors] loop: each professor with its
    ['match_score']. *)
Definition score_all (user_interests : option (list string)) (ps : list Professor)
  : list (Professor * Q) :=
  map (fun p => (p, match_score user_interests p)) ps.

End Engine.

(** [MatchingEngine.gemini] is a [GeminiService], which defines no
    [generate_text] method: the attribute lookup raises [AttributeError]
    whatever the prompt. *)
Definition gemini_generate_text (user_text prof_text pub_line : string) : Reply := Raises.

(** [ranked.sort(key=lambda x: x.get('match_score', 0), reverse=True)]:
    Python's sort is stable, also with [reverse=True]; modelled as
    insertion sort that puts an element after every element whose key is
    not smaller. *)
Fixpoint insert_desc (x : Professor * Q) (l : list (Professor * Q)) : list (Professor * Q) :=
  match l with
  | [] => [x]
  | y :: l' => if Qle_bool (snd x) (snd y) then y :: insert_desc x l' else x :: y :: l'
  end.

Definition sort_desc (l : list (Professor * Q)) : list (Professor * Q) :=
  fold_left (fun acc x => insert_desc x acc) l [].

(** [rank_professors(user_interests, professors)]. *)
Definition rank_professors (lower : string -> string)
    (generate_text : string -> string -> string -> Reply)
    (user_interests : option (list string)) (ps : list Professor) : list (Professor * Q) :=
  sort_desc (score_all lower generate_text user_interests ps).

(** The order [rank_professors] promises: highest score first. *)
Definition ranked_before (a b : Professor * Q) : Prop := snd b <= snd a.

(** Selects the entries whose score equals [q]. *)
Definition score_is (q : Q) (x : Professor * Q) : bool := Qeq_bool (snd x) q.

(** [str.lower] on text made of ASCII characters, where it maps [A-Z] to
    [a-z] and keeps every other character; the concrete inputs of the
    proofs are such text. *)
Definition lower_ascii (c : ascii) : ascii :=
  let n := nat_of_ascii c in
  if (Nat.leb 65 n && Nat.leb n 90)%bool then ascii_of_nat (n + 32) else c.

Fixpoint ascii_lower (s : string) : string :=
  match s with
  | EmptyString => EmptyString
  | String c s' => String (lower_ascii c) (ascii_lower s')
  end.

End Matching.


(* ------------------------------------------------------------------ *)
(** ** Counting helpers and sample stores used by the proofs *)

Module CountSpec.





End CountSpec.

Module Fixtures.
Import BatchManager EmailBatch.

(** A batch of two approved emails. *)
Definition two_approved : Store :=
  mkStore [Email.fresh 1 (Some 1%nat) APPROVED; Email.fresh 2 (Some 1%nat) APPROVED]
          [EmailBatch.mkBatch 1 2 0 2 0 0 0 0 0 "approved"].


End Fixtures.

(* ------------------------------------------------------------------ *)
(** ** Further methods of Email and BatchManager *)

Module EmailMethods.
Import Email.

(** [Email.approve(user_id)]: the approval columns [approved_by] and
    [approved_at] are not fields of [Email.t]; their new values are
    returned beside the row. *)
Definition approve (e : t) (user_id : nat) (now ts now' : Z) : t * (nat * Z) :=
  (update_status e APPROVED (Some "Email approved for sending"%string) ts now',
   (user_id, now)).

(** Consecutive [status_history] entries agree (each [to_status] is the
    next entry's [from_status]) and the last entry names the current
    status. *)
Fixpoint history_links (h : list history_entry) (st : EmailStatus) : bool :=
  match h with
  | [] => true
  | [x] => EmailStatus_beq (to_status x) st
  | x :: ((y :: _) as h') =>
      EmailStatus_beq (to_status x) (from_status y) && history_links h' st
  end.

Definition history_consistent (e : t) : bool :=
  history_links (status_history e) (status e).

(** Number of history entries that record an opening. *)
Definition opened_entries (e : t) : Z :=
  Z.of_nat (List.length
    (filter (fun x => EmailStatus_beq (to_status x) OPENED) (status_history e))).

End EmailMethods.

Module BatchOps.
Import BatchManager.


(** [batch.status = 'approved']. *)
Definition batch_with_status (b : EmailBatch.t) (st : string) : EmailBatch.t :=
  EmailBatch.mkBatch (EmailBatch.id b) (EmailBatch.total_count b)
    (EmailBatch.draft_count b) (EmailBatch.approved_count b) (EmailBatch.sent_count b)
    (EmailBatch.delivered_count b) (EmailBatch.opened_count b)
    (EmailBatch.replied_count b) (EmailBatch.failed_count b) st.

(** [BatchManager.approve_batch(batch_id)]: the batch must exist and be in
    ['draft']; it becomes ['approved'] and the session is committed.  The
    loop [for email in get_batch_emails(batch_id, status='draft')] runs
    over the rows whose stored status name is the string ['draft']; the
    [Enum] column stores member names such as ['DRAFT'], so that list is
    always empty ([ApproveFacts.get_batch_emails_draft_empty]) and the loop
    assigns no email row. *)
Definition approve_batch (s : Store) (bid : nat) : Store * bool :=
  match get_batch s bid with
  | None => (s, false)
  | Some b =>
      if negb (String.eqb (EmailBatch.status b) "draft") then (s, false)
      else (put_batch s (batch_with_status b "approved"), true)
  end.

End BatchOps.


(* ================================================================== *)
(** * Proofs *)

(* ------------------------------------------------------------------ *)
(** ** Scheduler lemmas *)

Module SchedulerFacts.
Import Scheduler.

Lemma HOUR_eq : DT.HOUR = 3600000000.
Proof. reflexivity. Qed.

Lemma DAY_eq : DT.DAY = 86400000000.
Proof. reflexivity. Qed.

Lemma MINUTE_eq : DT.MINUTE = 60000000.
Proof. reflexivity. Qed.

Lemma hour_replace_9 (t : Z) : DT.hour (DT.replace_hour t 9) = 9.
Proof.
  unfold DT.hour, DT.replace_hour, DT.DAY.
  replace (t / (24 * DT.HOUR) * (24 * DT.HOUR) + 9 * DT.HOUR)
    with ((9 + t / (24 * DT.HOUR) * 24) * DT.HOUR) by ring.
  rewrite Z.div_mul by (rewrite HOUR_eq; lia).
  rewrite Z.mod_add by lia. reflexivity.
Qed.

Lemma in_optimal_9 : in_optimal 9 = true.
Proof. reflexivity. Qed.


(** The skip loop either keeps an optimal candidate or rolls it to the
    next day's 09:00. *)
Lemma skip_spec (c1 c2 : Z) :
  skip_non_optimal c1 = Some c2 ->
  (in_optimal (DT.hour c1) = true /\ c2 = c1) \/
  (in_optimal (DT.hour c1) = false /\ c2 = DT.replace_hour (c1 + DT.DAY) 9).
Proof.
  unfold skip_non_optimal; simpl.
  destruct (in_optimal (DT.hour c1)) eqn:Ho.
  - intros H; inversion H; auto.
  - unfold DT.add. destruct (DT.in_range (c1 + DT.DAY)); [|discriminate].
    rewrite hour_replace_9, in_optimal_9. intros H; inversion H; auto.
Qed.

Lemma skip_some (c1 : Z) :
  0 <= c1 -> c1 + DT.DAY <= DT.MAX -> exists c2, skip_non_optimal c1 = Some c2.
Proof.
  intros H0 H1. unfold skip_non_optimal; simpl.
  destruct (in_optimal (DT.hour c1)); [eauto|].
  unfold DT.add, DT.in_range.
  replace ((0 <=? c1 + DT.DAY) && (c1 + DT.DAY <=? DT.MAX)) with true
    by (symmetry; apply andb_true_iff; split; apply Z.leb_le;
        rewrite ?DAY_eq in *; lia).
  rewrite hour_replace_9, in_optimal_9. eauto.
Qed.

(** Arithmetic of the roll to the next day's 09:00. *)
Lemma roll_facts (c1 : Z) :
  let c2 := DT.replace_hour (c1 + DT.DAY) 9 in
  c1 < c2 /\ c2 <= c1 + DT.DAY + 9 * DT.HOUR /\
  c2 / DT.DAY = c1 / DT.DAY + 1 /\ c2 mod DT.DAY = 9 * DT.HOUR.
Proof.
  cbv zeta. unfold DT.replace_hour.
  replace (c1 + DT.DAY) with (c1 + 1 * DT.DAY) by ring.
  rewrite Z.div_add by (rewrite DAY_eq; lia).
  pose proof (Z.div_mod c1 DT.DAY) as Hd.
  pose proof (Z.mod_pos_bound c1 DT.DAY) as Hb.
  rewrite DAY_eq in Hd, Hb |- *. rewrite HOUR_eq.
  specialize (Hb ltac:(lia)).
  set (q := c1 / 86400000000) in *. set (r := c1 mod 86400000000) in *.
  rewrite Z.div_add_l by lia. rewrite Z.add_comm, Z.mod_add by lia.
  change (9 * 3600000000 / 86400000000) with 0.
  change ((9 * 3600000000) mod 86400000000) with (9 * 3600000000).
  lia.
Qed.

Lemma day_mono (a b : Z) : a <= b -> a / DT.DAY <= b / DT.DAY.
Proof. intros; apply Z.div_le_mono; [rewrite DAY_eq; lia | exact H]. Qed.

Lemma add_spec (t d r : Z) : DT.add t d = Some r -> r = t + d /\ 0 <= r <= DT.MAX.
Proof.
  unfold DT.add, DT.in_range. destruct ((0 <=? t + d) && (t + d <=? DT.MAX)) eqn:E;
    [|discriminate].
  apply andb_true_iff in E as [E1 E2]. apply Z.leb_le in E1, E2.
  intros H; inversion H; subst; lia.
Qed.

Lemma batch_loop_spec (n : nat) (m cur : Z) (l : list Z) :
  batch_loop n m cur = Some l ->
  List.length l = n /\ (n <> O -> hd_error l = Some cur) /\ chain (round m) l.
Proof.
  revert cur l. induction n as [|n IH]; intros cur l H; simpl in H.
  - inversion H; subst; simpl; repeat split; congruence.
  - destruct (DT.add cur (m * DT.MINUTE)) as [c1|] eqn:Ha; [|discriminate].
    destruct (skip_non_optimal c1) as [c2|] eqn:Hs; [|discriminate].
    destruct (batch_loop n m c2) as [l'|] eqn:Hl; [|discriminate].
    simpl in H; inversion H; subst l; clear H.
    destruct (IH _ _ Hl) as (Hlen & Hhd & Hch).
    repeat split; simpl; auto.
    destruct l' as [|y l'']; [exact I|].
    split; [|exact Hch].
    destruct n; [discriminate Hlen|]. specialize (Hhd ltac:(discriminate)).
    simpl in Hhd; inversion Hhd; subst y. exists c1; auto.
Qed.

Lemma chain_impl (R S : Z -> Z -> Prop) (l : list Z) :
  (forall a b, R a b -> S a b) -> chain R l -> chain S l.
Proof.
  intros HRS. induction l as [|x l IH]; simpl; auto.
  destruct l as [|y l]; auto. intros [H1 H2]; split; auto.
Qed.


Lemma add_some (t d : Z) : 0 <= t + d <= DT.MAX -> DT.add t d = Some (t + d).
Proof.
  intros H. unfold DT.add, DT.in_range.
  replace ((0 <=? t + d) && (t + d <=? DT.MAX)) with true; [reflexivity|].
  symmetry; apply andb_true_iff; split; apply Z.leb_le; lia.
Qed.

(** What one round does: advance by the interval, then keep or roll. *)
Lemma round_spec (m a b : Z) :
  round m a b ->
  let c := a + m * DT.MINUTE in
  ((in_optimal (DT.hour c) = true /\ b = c) \/
   (in_optimal (DT.hour c) = false /\ b = DT.replace_hour (c + DT.DAY) 9)) /\
  in_optimal (DT.hour b) = true /\ c <= b /\ b <= c + DT.DAY + 9 * DT.HOUR /\
  (b = c \/ (b mod DT.DAY = 9 * DT.HOUR /\ c / DT.DAY < b / DT.DAY)).
Proof.
  intros (c1 & Ha & Hs). apply add_spec in Ha as [-> _]. cbv zeta.
  set (c := a + m * DT.MINUTE) in *.
  destruct (skip_spec _ _ Hs) as [[Ho ->] | [Ho ->]].
  - repeat split; auto; rewrite ?HOUR_eq, ?DAY_eq; lia.
  - destruct (roll_facts c) as (H1 & H2 & H3 & H4).
    split; [auto|]. split; [rewrite hour_replace_9; reflexivity|].
    split; [lia|]. split; [lia|]. right; split; [exact H4|lia].
Qed.

Lemma batch_loop_some (n : nat) (m cur : Z) :
  1 <= m -> 0 <= cur ->
  cur + Z.of_nat n * (m * DT.MINUTE + 2 * DT.DAY) <= DT.MAX ->
  exists l, batch_loop n m cur = Some l.
Proof.
  revert cur. induction n as [|n IH]; intros cur Hm H0 Hb; simpl; [eauto|].
  rewrite Nat2Z.inj_succ in Hb.
  assert (Hmin : 0 < m * DT.MINUTE) by (rewrite MINUTE_eq; lia).
  assert (HP : 0 <= Z.of_nat n * (m * DT.MINUTE + 2 * DT.DAY))
    by (apply Z.mul_nonneg_nonneg; rewrite ?DAY_eq; lia).
  set (P := Z.of_nat n * (m * DT.MINUTE + 2 * DT.DAY)) in *.
  replace (Z.succ (Z.of_nat n) * (m * DT.MINUTE + 2 * DT.DAY))
    with (m * DT.MINUTE + 2 * DT.DAY + P) in Hb by (unfold P; ring).
  rewrite (add_some cur (m * DT.MINUTE)) by (rewrite DAY_eq in Hb; lia).
  destruct (skip_some (cur + m * DT.MINUTE)) as [c2 Hs];
    [lia | rewrite DAY_eq in *; lia |].
  rewrite Hs.
  assert (Hr : round m cur c2)
    by (exists (cur + m * DT.MINUTE); split; [apply add_some; rewrite DAY_eq in Hb; lia | exact Hs]).
  destruct (round_spec _ _ _ Hr) as (_ & _ & Hlo & Hhi & _).
  destruct (IH c2 Hm) as [l' Hl'];
    [lia | rewrite HOUR_eq, DAY_eq in *; unfold P in *; lia |].
  rewrite Hl'. simpl. eauto.
Qed.

(** A list whose consecutive elements are at least [g > 0] apart has at
    most [(hi - lo + g - 1) / g] elements in [[lo, hi)]. *)
Lemma chain_gap_ge (g x : Z) (l : list Z) :
  0 <= g -> chain (fun a b => a + g <= b) (x :: l) -> Forall (fun t => x + g <= t) l.
Proof.
  intros Hg. revert x. induction l as [|y l IH]; intros x H; [constructor|].
  destruct H as [Hxy Hc]. constructor; [exact Hxy|].
  specialize (IH y Hc). eapply Forall_impl; [|exact IH]. simpl; intros; lia.
Qed.

Lemma count_window_above (lo lo' hi : Z) (l : list Z) :
  lo <= lo' -> Forall (fun t => lo' <= t) l ->
  count_window lo hi l = count_window lo' hi l.
Proof.
  intros Hle. induction l as [|t l IH]; intros Hf; simpl; [reflexivity|].
  inversion Hf; subst.
  replace (lo <=? t) with true by (symmetry; apply Z.leb_le; lia).
  replace (lo' <=? t) with true by (symmetry; apply Z.leb_le; lia).
  rewrite IH by assumption. reflexivity.
Qed.

Lemma count_window_gap (g lo hi : Z) (l : list Z) :
  0 < g -> chain (fun a b => a + g <= b) l -> lo < hi + g ->
  Z.of_nat (count_window lo hi l) * g <= hi - lo + g - 1.
Proof.
  intros Hg. revert lo. induction l as [|x l IH]; intros lo Hc Hlo; simpl; [lia|].
  assert (Hc' : chain (fun a b => a + g <= b) l)
    by (destruct l; [exact I | exact (proj2 Hc)]).
  destruct ((lo <=? x) && (x <? hi)) eqn:E.
  - apply andb_true_iff in E as [E1 E2]. apply Z.leb_le in E1. apply Z.ltb_lt in E2.
    rewrite (count_window_above lo (x + g)) by (lia || (apply chain_gap_ge; [lia|exact Hc])).
    specialize (IH (x + g) Hc' ltac:(lia)). rewrite Nat2Z.inj_succ. lia.
  - apply IH; assumption.
Qed.

End SchedulerFacts.

Module SchedulerClaims.
Import Scheduler SchedulerFacts.

Lemma schedule_batch_loop (now n m : Z) (st : option Z) (l : list Z) :
  schedule_batch now n m st = Some l ->
  exists start, batch_loop (Z.to_nat n) m start = Some l.
Proof.
  unfold schedule_batch.
  destruct (match st with Some s => Some s | None => schedule_email now 0 end);
    [eauto | discriminate].
Qed.

(** C2 (amended).  [schedule_batch] takes no per-hour limit: its only
    spacing is [interval_minutes].  For an interval [m >= 1], consecutive
    times are at least [m] minutes apart, so every 60-minute window
    [[a, a + 60min)] holds at most [ceil(60 / m) = (59 + m) / m] of the
    returned times. *)
Theorem schedule_batch_hourly_bound (now n m : Z) (st : option Z) (l : list Z) :
  1 <= m ->
  schedule_batch now n m st = Some l ->
  chain (fun a b => a + m * DT.MINUTE <= b) l /\
  forall a, Z.of_nat (count_window a (a + DT.HOUR) l) <= (59 + m) / m.
Proof.
  intros Hm Hs. apply schedule_batch_loop in Hs as [start Hl].
  destruct (batch_loop_spec _ _ _ _ Hl) as (_ & _ & Hc).
  assert (Hg : chain (fun a b => a + m * DT.MINUTE <= b) l).
  { eapply chain_impl; [|exact Hc]. intros x y Hr.
    destruct (round_spec _ _ _ Hr) as (_ & _ & H & _); exact H. }
  split; [exact Hg|]. intros a.
  pose proof (count_window_gap (m * DT.MINUTE) a (a + DT.HOUR) l) as Hw.
  specialize (Hw ltac:(rewrite MINUTE_eq; lia) Hg ltac:(rewrite MINUTE_eq, HOUR_eq; lia)).
  set (c := Z.of_nat (count_window a (a + DT.HOUR) l)) in *.
  rewrite MINUTE_eq, HOUR_eq in Hw.
  apply Z.div_le_lower_bound; [lia|].
  assert (c * m <= 59 + m); [|lia].
  destruct (Z_le_gt_dec (c * m) (59 + m)) as [|Hgt]; [assumption|].
  exfalso. assert (c * m * 60000000 >= (60 + m) * 60000000) by nia. nia.
Qed.

Lemma schedule_batch_hourly_bound_witness :
  schedule_batch 0 5 30 (Some (DT.at_ 738000 10 0)) =
    Some [DT.at_ 738000 10 0; DT.at_ 738000 10 30; DT.at_ 738000 11 0;
          DT.at_ 738000 11 30; DT.at_ 738000 12 0] /\
  Z.of_nat (count_window (DT.at_ 738000 10 0) (DT.at_ 738000 10 0 + DT.HOUR)
    [DT.at_ 738000 10 0; DT.at_ 738000 10 30; DT.at_ 738000 11 0;
     DT.at_ 738000 11 30; DT.at_ 738000 12 0]) <= (59 + 30) / 30.
Proof.
  split; [vm_compute; reflexivity|].
  apply (proj2 (schedule_batch_hourly_bound 0 5 30 (Some (DT.at_ 738000 10 0)) _
                  ltac:(lia) ltac:(vm_compute; reflexivity))).
Defined.

(** C2 counterexample: five messages with interval 0 all land on the
    same instant, so one hour holds five of them (a limit of 2 per hour is
    exceeded and only one hourly window is used). *)
Lemma schedule_batch_hourly_cex :
  let t := DT.at_ 738000 10 0 in
  schedule_batch 0 5 0 (Some t) = Some [t; t; t; t; t] /\
  count_window t (t + DT.HOUR) [t; t; t; t; t] = 5%nat.
Proof. vm_compute. split; reflexivity. Qed.




(** C10 (amended).  For [batch_size = n >= 0], [interval_minutes = m >= 1]
    and a start time [s] far enough from [datetime.max] that no addition
    overflows ([s + n * (m minutes + 2 days) <= datetime.max] suffices),
    [schedule_batch] returns exactly [n] times, starting at [s], strictly
    increasing, each one either exactly [m] minutes after the previous one
    or 09:00 of a later day. *)
Theorem schedule_batch_shape (now n m s : Z) :
  0 <= n -> 1 <= m -> 0 <= s ->
  s + n * (m * DT.MINUTE + 2 * DT.DAY) <= DT.MAX ->
  exists l,
    schedule_batch now n m (Some s) = Some l /\
    List.length l = Z.to_nat n /\
    (0 < n -> hd_error l = Some s) /\
    chain (fun a b => a < b /\
             (b = a + m * DT.MINUTE \/
              (b mod DT.DAY = 9 * DT.HOUR /\ a / DT.DAY < b / DT.DAY))) l.
Proof.
  intros Hn Hm Hs Hb. unfold schedule_batch.
  destruct (batch_loop_some (Z.to_nat n) m s Hm Hs) as [l Hl];
    [rewrite Z2Nat.id by lia; exact Hb|].
  exists l. rewrite Hl.
  destruct (batch_loop_spec _ _ _ _ Hl) as (Hlen & Hhd & Hc).
  split; [reflexivity|]. split; [exact Hlen|]. split.
  - intros Hpos. apply Hhd. lia.
  - eapply chain_impl; [|exact Hc]. intros a b Hr.
    destruct (round_spec _ _ _ Hr) as (_ & _ & Hlo & _ & Hcase).
    assert (0 < m * DT.MINUTE) by (rewrite MINUTE_eq; lia).
    split; [lia|].
    destruct Hcase as [Heq | [Hmod Hday]]; [left; exact Heq|right; split; [exact Hmod|]].
    pose proof (day_mono a (a + m * DT.MINUTE) ltac:(lia)). lia.
Qed.

Lemma schedule_batch_shape_witness :
  exists l,
    schedule_batch 0 3 90 (Some (DT.at_ 738000 15 0)) = Some l /\
    List.length l = Z.to_nat 3 /\
    (0 < 3 -> hd_error l = Some (DT.at_ 738000 15 0)) /\
    chain (fun a b => a < b /\
             (b = a + 90 * DT.MINUTE \/
              (b mod DT.DAY = 9 * DT.HOUR /\ a / DT.DAY < b / DT.DAY))) l.
Proof.
  apply (schedule_batch_shape 0 3 90 (DT.at_ 738000 15 0));
    [lia | lia | vm_compute; discriminate | vm_compute; discriminate].
Defined.

(** C10 counterexample: at [datetime.max] the first advance of the loop
    overflows, so [schedule_batch(1, 1, start_time=datetime.max)] raises
    [OverflowError] instead of returning one time. *)
Lemma schedule_batch_shape_cex : schedule_batch 0 1 1 (Some DT.MAX) = None.
Proof. vm_compute. reflexivity. Qed.

End SchedulerClaims.

(* ------------------------------------------------------------------ *)
(** ** Store lemmas *)

Module StoreFacts.
Import BatchManager BatchOps.

Lemma find_map_other {A} (p : A -> bool) (f : A -> A) (l : list A) :
  (forall x, p x = true -> f x = x) -> (forall x, p (f x) = p x) ->
  find p (map f l) = find p l.
Proof.
  intros H1 H2. induction l as [|x l IH]; simpl; [reflexivity|].
  rewrite H2. destruct (p x) eqn:E; [rewrite (H1 x E); reflexivity | exact IH].
Qed.

Lemma find_map_put {A} (p : A -> bool) (y : A) (l : list A) :
  p y = true -> existsb p l = true ->
  find p (map (fun x => if p x then y else x) l) = Some y.
Proof.
  intros Hy. induction l as [|x l IH]; simpl; [discriminate|].
  destruct (p x) eqn:E; simpl; [rewrite Hy; reflexivity|].
  rewrite E. exact IH.
Qed.

Lemma get_email_id (s : Store) (i : nat) (e : Email.t) :
  get_email s i = Some e -> Email.id e = i.
Proof.
  unfold get_email. intros H. apply find_some in H as [_ H].
  apply Nat.eqb_eq in H. exact H.
Qed.

Lemma get_email_exists (s : Store) (i : nat) (e : Email.t) :
  get_email s i = Some e -> existsb (fun x => Nat.eqb (Email.id x) i) (emails s) = true.
Proof.
  unfold get_email. intros H. apply existsb_exists.
  apply find_some in H. exists e; exact H.
Qed.

Lemma get_put_email_same (s : Store) (e e' : Email.t) :
  get_email s (Email.id e') = Some e -> get_email (put_email s e') (Email.id e') = Some e'.
Proof.
  intros H. unfold get_email, put_email; simpl.
  apply find_map_put; [apply Nat.eqb_refl | exact (get_email_exists _ _ _ H)].
Qed.

Lemma get_put_email_other (s : Store) (e' : Email.t) (i : nat) :
  Email.id e' <> i -> get_email (put_email s e') i = get_email s i.
Proof.
  intros Hne. unfold get_email, put_email; simpl. apply find_map_other.
  - intros x Hx. apply Nat.eqb_eq in Hx. subst i.
    destruct (Nat.eqb_spec (Email.id x) (Email.id e')); [congruence|reflexivity].
  - intros x. destruct (Nat.eqb_spec (Email.id x) (Email.id e')) as [Heq|]; [|reflexivity].
    rewrite Heq. reflexivity.
Qed.

Lemma get_put_email_at (s : Store) (i : nat) (e e' : Email.t) :
  get_email s i = Some e -> Email.id e' = i -> get_email (put_email s e') i = Some e'.
Proof. intros Hg <-. apply (get_put_email_same s e), Hg. Qed.

Lemma put_batch_emails (s : Store) (b : EmailBatch.t) :
  emails (put_batch s b) = emails s.
Proof. reflexivity. Qed.

Lemma put_email_batches (s : Store) (e : Email.t) :
  batches (put_email s e) = batches s.
Proof. reflexivity. Qed.

Lemma get_email_put_batch (s : Store) (b : EmailBatch.t) (i : nat) :
  get_email (put_batch s b) i = get_email s i.
Proof. reflexivity. Qed.

Lemma get_batch_put_email (s : Store) (e : Email.t) (b : nat) :
  get_batch (put_email s e) b = get_batch s b.
Proof. reflexivity. Qed.

Lemma get_batch_id (s : Store) (bid : nat) (b : EmailBatch.t) :
  get_batch s bid = Some b -> EmailBatch.id b = bid.
Proof.
  unfold get_batch. intros H. apply find_some in H as [_ H]. apply Nat.eqb_eq, H.
Qed.

Lemma get_put_batch_same (s : Store) (bid : nat) (b b' : EmailBatch.t) :
  get_batch s bid = Some b -> EmailBatch.id b' = bid -> get_batch (put_batch s b') bid = Some b'.
Proof.
  intros H Hid. unfold get_batch, put_batch. cbn [batches]. subst bid.
  apply find_map_put; [apply Nat.eqb_refl|].
  apply existsb_exists. unfold get_batch in H. apply find_some in H. exists b. exact H.
Qed.

Lemma get_put_batch_other (s : Store) (b' : EmailBatch.t) (k : nat) :
  EmailBatch.id b' <> k -> get_batch (put_batch s b') k = get_batch s k.
Proof.
  intros Hne. unfold get_batch, put_batch; cbn [batches]. apply find_map_other.
  - intros x Hx. apply Nat.eqb_eq in Hx. subst k.
    destruct (Nat.eqb_spec (EmailBatch.id x) (EmailBatch.id b')); [congruence|reflexivity].
  - intros x. destruct (Nat.eqb_spec (EmailBatch.id x) (EmailBatch.id b')) as [Heq|];
      [|reflexivity].
    rewrite Heq. reflexivity.
Qed.



End StoreFacts.


(* ------------------------------------------------------------------ *)
(** ** Email.update_status and EmailBatch.update_counts *)

Module StatusClaims.

(** C3 (amended).  [update_status] consults no transition table and never
    fails: from every status to every status it sets the new status,
    appends exactly one [(from, to, timestamp, notes)] record to
    [status_history], stamps [sent_at] / [delivered_at] / [replied_at] on
    entering [SENT] / [DELIVERED] / [REPLIED], and on entering [OPENED]
    stamps [last_opened_at], sets [opened_at] if unset and adds one to
    [open_count]; every other field is left as it was. *)
Theorem update_status_accepts_all (e : Email.t) (new : EmailStatus)
    (notes : option string) (ts now : Z) :
  let e' := Email.update_status e new notes ts now in
  Email.status e' = new /\
  Email.status_history e' =
    Email.status_history e ++ [Email.mkHistory (Email.status e) new ts notes] /\
  (new = SENT -> Email.sent_at e' = Some now) /\
  (new = DELIVERED -> Email.delivered_at e' = Some now) /\
  (new = REPLIED -> Email.replied_at e' = Some now) /\
  (new = OPENED ->
     Email.last_opened_at e' = Some now /\
     Email.opened_at e' = match Email.opened_at e with
                          | None => Some now | Some o => Some o end /\
     Email.open_count e' = Email.open_count e + 1) /\
  (new <> SENT -> Email.sent_at e' = Email.sent_at e) /\
  (new <> DELIVERED -> Email.delivered_at e' = Email.delivered_at e) /\
  (new <> REPLIED -> Email.replied_at e' = Email.replied_at e) /\
  (new <> OPENED ->
     Email.last_opened_at e' = Email.last_opened_at e /\
     Email.opened_at e' = Email.opened_at e /\
     Email.open_count e' = Email.open_count e) /\
  Email.id e' = Email.id e /\ Email.batch_id e' = Email.batch_id e /\
  Email.retry_count e' = Email.retry_count e /\
  Email.error_message e' = Email.error_message e /\
  Email.error_code e' = Email.error_code e /\ Email.last_error e' = Email.last_error e.
Proof.
  cbv zeta. unfold Email.update_status; cbn [Email.status Email.status_history
    Email.sent_at Email.delivered_at Email.replied_at Email.last_opened_at
    Email.opened_at Email.open_count Email.id Email.batch_id Email.retry_count
    Email.error_message Email.error_code Email.last_error].
  repeat split; intros; subst; try reflexivity;
    destruct new; try reflexivity; congruence.
Qed.

(** C3 counterexample: [sent -> draft] is no transition of the lifecycle,
    yet [update_status] performs it and logs it. *)
Lemma update_status_no_table_cex :
  let e' := Email.update_status (Email.fresh 1 None SENT) DRAFT None 0 0 in
  spec_lifecycle_allows SENT DRAFT = false /\
  Email.status e' = DRAFT /\
  Email.status_history e' = [Email.mkHistory SENT DRAFT 0 None].
Proof. vm_compute. repeat split; reflexivity. Qed.

End StatusClaims.

Module CountFacts.
Import EmailBatch CountSpec.


Lemma count_row_id_status (b : t) (r : EmailStatus * Z) :
  id (count_row b r) = id b /\ status (count_row b r) = status b.
Proof. destruct r as [[] c]; split; reflexivity. Qed.




Lemma fold_id_status (R : list (EmailStatus * Z)) (b : t) :
  id (fold_left count_row R b) = id b /\ status (fold_left count_row R b) = status b.
Proof.
  revert b. induction R as [|r R IH]; intros b; simpl; [auto|].
  destruct (IH (count_row b r)) as [-> ->]. apply count_row_id_status.
Qed.








End CountFacts.

Module CountClaims.
Import EmailBatch CountSpec CountFacts Fixtures.



End CountClaims.


(* ------------------------------------------------------------------ *)
(** ** Matching engine *)

Module MatchingFacts.
Import Matching.
Open Scope Q_scope.


Lemma round2_zero q : q == 0 -> round2 q == 0.
Proof.
  destruct q as [a b]. unfold Qeq. cbn [Qnum Qden]. intro H.
  assert (a = 0%Z) by lia. subst a.
  unfold round2, Qeq. cbn. reflexivity.
Qed.


Lemma ratio_zero (b : Z) : inject_Z 0 / inject_Z b * 100 == 0.
Proof. unfold Qeq, Qdiv, Qmult, inject_Z. cbn [Qnum Qden]. reflexivity. Qed.


Section Fallback.
Variable lower : string -> string.




End Fallback.

(** With [MatchingEngine.gemini] as the repository defines it, the call
    raises and every score is the fallback score. *)
Lemma calculate_match_score_gemini lower u p pubs :
  calculate_match_score lower gemini_generate_text u p pubs =
  Some (mkResult (Some (fallback_score lower u p))).
Proof. reflexivity. Qed.

(** Clamping. *)



(** Sorting. *)

Lemma insert_desc_perm x l : Permutation (insert_desc x l) (x :: l).
Proof.
  induction l as [|y l IH]; cbn [insert_desc]; [reflexivity|].
  destruct (Qle_bool (snd x) (snd y)); [|reflexivity].
  transitivity (y :: x :: l); [constructor; exact IH | apply perm_swap].
Qed.

Lemma ranked_before_trans : Transitive ranked_before.
Proof. intros a b c H1 H2. unfold ranked_before in *. eapply Qle_trans; eassumption. Qed.

Lemma qle_bool_false a b : Qle_bool a b = false -> b < a.
Proof.
  intro H. apply Qnot_le_lt. intro H'. apply Qle_bool_iff in H'. congruence.
Qed.

Lemma insert_desc_hd x y l :
  HdRel ranked_before y l -> ranked_before y x -> HdRel ranked_before y (insert_desc x l).
Proof.
  intros Hl Hx. destruct l as [|z l]; cbn [insert_desc].
  - constructor. exact Hx.
  - destruct (Qle_bool (snd x) (snd z)); constructor; [inversion Hl; assumption | exact Hx].
Qed.

Lemma insert_desc_sorted x l : Sorted ranked_before l -> Sorted ranked_before (insert_desc x l).
Proof.
  induction l as [|y l IH]; intro Hs; cbn [insert_desc].
  - repeat constructor.
  - inversion Hs as [|? ? Hs' Hhd]; subst.
    case_eq (Qle_bool (snd x) (snd y)); intro Hxy.
    + constructor; [apply IH, Hs'|].
      apply insert_desc_hd; [exact Hhd|]. apply Qle_bool_iff, Hxy.
    + constructor; [exact Hs|]. constructor.
      apply Qlt_le_weak, qle_bool_false, Hxy.
Qed.

Lemma filter_none {A} (f : A -> bool) l :
  (forall z, In z l -> f z = false) -> filter f l = [].
Proof.
  induction l as [|y l IH]; intro H; [reflexivity|].
  cbn [filter]. rewrite (H y (or_introl eq_refl)). apply IH. intros z Hz. apply H. right. exact Hz.
Qed.

Lemma insert_desc_filter x l q :
  Sorted ranked_before l ->
  filter (score_is q) (insert_desc x l) = filter (score_is q) l ++ filter (score_is q) [x].
Proof.
  induction l as [|y l IH]; intro Hs; [reflexivity|].
  inversion Hs as [|? ? Hs' Hhd]; subst.
  cbn [insert_desc]. case_eq (Qle_bool (snd x) (snd y)); intro Hxy.
  - cbn [filter]. rewrite (IH Hs').
    destruct (score_is q y); reflexivity.
  - apply qle_bool_false in Hxy.
    change (x :: y :: l) with ([x] ++ y :: l). rewrite filter_app.
    case_eq (score_is q x); intro Hx.
    + rewrite (filter_none (score_is q) (y :: l)); [rewrite app_nil_r; reflexivity|].
      intros z Hz. case_eq (score_is q z); intro Hzq; [|reflexivity]. exfalso.
      apply Sorted_StronglySorted in Hs; [|exact ranked_before_trans].
      assert (Hzy : snd z <= snd y).
      { destruct Hz as [<- | Hz]; [apply Qle_refl|].
        inversion Hs as [|? ? _ Hall]; subst.
        rewrite Forall_forall in Hall. exact (Hall z Hz). }
      unfold score_is in Hx, Hzq. apply Qeq_bool_iff in Hx, Hzq.
      assert (Hlt : snd z < snd x) by (eapply Qle_lt_trans; eassumption).
      rewrite Hzq, Hx in Hlt. exact (Qlt_irrefl q Hlt).
    + cbn [filter]. rewrite Hx, app_nil_r. reflexivity.
Qed.

Lemma fold_insert l acc :
  Sorted ranked_before acc ->
  let res := fold_left (fun a x => insert_desc x a) l acc in
  Sorted ranked_before res /\ Permutation res (acc ++ l) /\
  forall q, filter (score_is q) res = filter (score_is q) acc ++ filter (score_is q) l.
Proof.
  revert acc. induction l as [|x l IH]; intros acc Hs; cbv zeta; cbn [fold_left].
  - rewrite app_nil_r. split; [exact Hs|]. split; [reflexivity|].
    intro q. rewrite app_nil_r. reflexivity.
  - destruct (IH (insert_desc x acc) (insert_desc_sorted x acc Hs)) as [H1 [H2 H3]].
    split; [|split].
    + exact H1.
    + rewrite H2. etransitivity; [apply Permutation_app_tail, insert_desc_perm|].
      apply Permutation_middle.
    + intro q. rewrite H3, (insert_desc_filter x acc q Hs), <- app_assoc.
      f_equal. cbn [filter app]. destruct (score_is q x); reflexivity.
Qed.

End MatchingFacts.

Module MatchingClaims.
Import Matching MatchingFacts.
Open Scope Q_scope.

(** C8 (amended): for every lower-casing function and every text
    generator, [rank_professors] returns the scored professors in an order
    sorted by score, highest first; it is a permutation of the input;
    among professors of equal score it keeps the input order (Python's
    sort is stable), with no secondary key; and each professor's score is
    its [match_score], a function of the inputs and of the generator's
    replies only. *)
Theorem rank_professors_stable (lower : string -> string)
    (gen : string -> string -> string -> Reply)
    (u : option (list string)) (ps : list Professor) :
  Sorted ranked_before (rank_professors lower gen u ps) /\
  Permutation (rank_professors lower gen u ps) (score_all lower gen u ps) /\
  (forall q, filter (score_is q) (rank_professors lower gen u ps) =
             filter (score_is q) (score_all lower gen u ps)) /\
  (forall p q, In (p, q) (rank_professors lower gen u ps) -> q = match_score lower gen u p).
Proof.
  destruct (fold_insert (score_all lower gen u ps) [] (Sorted_nil _)) as [H1 [H2 H3]].
  unfold rank_professors, sort_desc. repeat split.
  - exact H1.
  - exact H2.
  - intro q. rewrite H3. reflexivity.
  - intros p q Hin. apply (Permutation_in _ H2) in Hin. cbn [app] in Hin.
    unfold score_all in Hin. apply in_map_iff in Hin.
    destruct Hin as [p' [Heq _]]. injection Heq as -> <-. reflexivity.
Qed.

(** C8 counterexample: a generator answering [{"score": 80}] to every
    prompt gives two professors, listed with ids 2 and 1, the same score;
    they are ranked 2 before 1, not by ascending id. *)
Lemma rank_professors_tie_cex :
  map (fun x => (prof_id (fst x), snd x))
      (rank_professors ascii_lower (fun _ _ _ => JsonDict (Some (JNum 80)))
         (Some ["machine learning"%string])
         [mkProfessor 2 (Some ["robotics"%string]) [];
          mkProfessor 1 (Some ["vision"%string]) []])
  = [(2%nat, 80); (1%nat, 80)].
Proof. vm_compute. reflexivity. Qed.



End MatchingClaims.


(* ------------------------------------------------------------------ *)
(** ** Further properties: schedule_email *)

Module ScheduleEmailFacts.
Import Scheduler SchedulerFacts.

Lemma in_optimal_iff (h : Z) : in_optimal h = true <-> 9 <= h <= 17.
Proof.
  unfold in_optimal, OPTIMAL_HOURS. rewrite existsb_exists. split.
  - intros (x & Hx & Hxe). apply Z.eqb_eq in Hxe. subst x.
    apply in_map_iff in Hx as (k & <- & Hk). apply in_seq in Hk. lia.
  - intros Hh. exists h. split; [|apply Z.eqb_refl].
    apply in_map_iff. exists (Z.to_nat h). split; [lia|]. apply in_seq. lia.
Qed.

Lemma in_optimal_false (h : Z) : in_optimal h = false <-> ~ (9 <= h <= 17).
Proof.
  rewrite <- in_optimal_iff. destruct (in_optimal h); split; congruence.
Qed.

(** A time split into day, hour and the rest of the hour. *)
Lemma time_split (t : Z) :
  t = t / DT.DAY * DT.DAY + DT.hour t * DT.HOUR + t mod DT.HOUR /\
  0 <= DT.hour t < 24 /\ 0 <= t mod DT.HOUR < DT.HOUR.
Proof.
  unfold DT.hour, DT.DAY. rewrite HOUR_eq.
  pose proof (Z.div_mod t 3600000000 ltac:(lia)) as H1.
  pose proof (Z.mod_pos_bound t 3600000000 ltac:(lia)) as H2.
  pose proof (Z.div_mod (t / 3600000000) 24 ltac:(lia)) as H3.
  pose proof (Z.mod_pos_bound (t / 3600000000) 24 ltac:(lia)) as H4.
  assert (Hq : t / (24 * 3600000000) = t / 3600000000 / 24).
  { rewrite Z.mul_comm, Z.div_div by lia. reflexivity. }
  rewrite Hq. lia.
Qed.

Lemma hour_of (q h r : Z) :
  0 <= h < 24 -> 0 <= r < DT.HOUR -> DT.hour (q * DT.DAY + h * DT.HOUR + r) = h.
Proof.
  intros Hh Hr. unfold DT.hour, DT.DAY.
  replace (q * (24 * DT.HOUR) + h * DT.HOUR + r) with (r + (q * 24 + h) * DT.HOUR) by ring.
  rewrite Z.div_add by (rewrite HOUR_eq; lia).
  rewrite (Z.div_small r) by lia. rewrite Z.add_0_l.
  rewrite Z.add_comm, Z.mod_add by lia. apply Z.mod_small. lia.
Qed.

Lemma replace_hour_split (t h : Z) : DT.replace_hour t h = t / DT.DAY * DT.DAY + h * DT.HOUR + 0.
Proof. unfold DT.replace_hour. ring. Qed.

Lemma add_ok (t d : Z) : 0 <= t + d <= DT.MAX -> DT.add t d = Some (t + d).
Proof.
  intros H. unfold DT.add, DT.in_range.
  replace ((0 <=? t + d) && (t + d <=? DT.MAX)) with true; [reflexivity|].
  symmetry. apply andb_true_iff. split; apply Z.leb_le; lia.
Qed.

Ltac time_facts t q hr m :=
  let H := fresh "Ht" in
  pose proof (time_split t) as H;
  set (q := t / DT.DAY) in *; set (hr := DT.hour t) in *; set (m := t mod DT.HOUR) in *;
  rewrite DAY_eq, HOUR_eq in H.

End ScheduleEmailFacts.

Module ScheduleEmailClaims.
Import Scheduler SchedulerFacts ScheduleEmailFacts.

(** [schedule_email] with a preferred hour [h] in 9..17 returns the
    first [h]:00 strictly after [now]: it lies in (now, now + 1 day], its
    hour is [h] with minutes, seconds and microseconds zero, and no other
    [h]:00 after [now] comes earlier. *)
Theorem schedule_email_preferred (now h : Z) :
  9 <= h <= 17 -> 0 <= now -> now + DT.DAY <= DT.MAX ->
  exists r, schedule_email now h = Some r /\
    now < r <= now + DT.DAY /\ DT.hour r = h /\ r mod DT.HOUR = 0 /\
    (forall t, now < t -> t mod DT.DAY = h * DT.HOUR -> r <= t).
Proof.
  intros Hh H0 Hmax.
  assert (Hopt : in_optimal h = true) by (apply in_optimal_iff; exact Hh).
  unfold schedule_email. rewrite Hopt.
  replace (negb (h =? 0)) with true by (symmetry; apply negb_true_iff, Z.eqb_neq; lia).
  cbn [andb]. rewrite replace_hour_split.
  time_facts now q hr m. rewrite DAY_eq in Hmax.
  assert (Hmin : forall r, r mod DT.DAY = h * DT.HOUR -> now < r -> r - DT.DAY <= now ->
                   forall t, now < t -> t mod DT.DAY = h * DT.HOUR -> r <= t).
  { intros r Hr Hlo Hhi t Ht1 Ht2.
    pose proof (Z.div_mod r DT.DAY ltac:(rewrite DAY_eq; lia)) as Hr'.
    pose proof (Z.div_mod t DT.DAY ltac:(rewrite DAY_eq; lia)) as Ht'.
    rewrite Hr in Hr'. rewrite Ht2 in Ht'.
    set (a := r / DT.DAY) in Hr'. set (b := t / DT.DAY) in Ht'.
    clearbody a b. rewrite DAY_eq in *.
    assert (a - 1 < b) by nia. nia. }
  destruct (Z.leb_spec (q * DT.DAY + h * DT.HOUR + 0) now) as [Hle|Hgt].
  - rewrite add_ok by (rewrite DAY_eq, HOUR_eq in *; lia).
    eexists. split; [reflexivity|].
    assert (Hmod : (q * DT.DAY + h * DT.HOUR + 0 + DT.DAY) mod DT.DAY = h * DT.HOUR).
    { replace (q * DT.DAY + h * DT.HOUR + 0 + DT.DAY) with (h * DT.HOUR + (q + 1) * DT.DAY) by ring.
      rewrite Z.mod_add by (rewrite DAY_eq; lia). apply Z.mod_small. rewrite DAY_eq, HOUR_eq. lia. }
    split; [rewrite DAY_eq, HOUR_eq in *; lia|]. split.
    { replace (q * DT.DAY + h * DT.HOUR + 0 + DT.DAY) with ((q + 1) * DT.DAY + h * DT.HOUR + 0) by ring.
      apply hour_of; rewrite ?HOUR_eq; lia. }
    split.
    { replace (q * DT.DAY + h * DT.HOUR + 0 + DT.DAY) with ((q * 24 + 24 + h) * DT.HOUR)
        by (unfold DT.DAY; ring).
      apply Z.mod_mul. rewrite HOUR_eq. lia. }
    apply Hmin; [exact Hmod| |]; rewrite DAY_eq, HOUR_eq in *; lia.
  - eexists. split; [reflexivity|].
    assert (Hmod : (q * DT.DAY + h * DT.HOUR + 0) mod DT.DAY = h * DT.HOUR).
    { replace (q * DT.DAY + h * DT.HOUR + 0) with (h * DT.HOUR + q * DT.DAY) by ring.
      rewrite Z.mod_add by (rewrite DAY_eq; lia). apply Z.mod_small. rewrite DAY_eq, HOUR_eq. lia. }
    split; [rewrite DAY_eq, HOUR_eq in *; lia|]. split.
    { apply hour_of; rewrite ?HOUR_eq; lia. }
    split.
    { replace (q * DT.DAY + h * DT.HOUR + 0) with ((q * 24 + h) * DT.HOUR)
        by (unfold DT.DAY; ring).
      apply Z.mod_mul. rewrite HOUR_eq. lia. }
    apply Hmin; [exact Hmod| |]; rewrite DAY_eq, HOUR_eq in *; lia.
Qed.

Lemma schedule_email_preferred_witness :
  exists r, schedule_email (DT.at_ 739000 14 30) 10 = Some r /\
    DT.at_ 739000 14 30 < r <= DT.at_ 739000 14 30 + DT.DAY /\ DT.hour r = 10 /\
    r mod DT.HOUR = 0 /\
    (forall t, DT.at_ 739000 14 30 < t -> t mod DT.DAY = 10 * DT.HOUR -> r <= t).
Proof.
  apply (schedule_email_preferred (DT.at_ 739000 14 30) 10);
    unfold DT.at_, DT.MAX, DT.DAY, DT.HOUR, DT.MINUTE; lia.
Defined.

(** Without a valid preferred hour ([None], or an hour outside 9..17,
    which is silently ignored) [schedule_email] returns a time in
    (now, now + 1 day] whose hour is in 9..18; hour 18 only happens one
    minute after a [now] in the 17 o'clock hour ([now + 1 minute] from
    17:59 on). *)
Theorem schedule_email_default (now h : Z) :
  ~ (9 <= h <= 17) -> 0 <= now -> now + DT.DAY <= DT.MAX ->
  exists r, schedule_email now h = Some r /\
    now < r <= now + DT.DAY /\ 9 <= DT.hour r <= 18 /\
    (DT.hour r = 18 -> DT.hour now = 17 /\ r = now + DT.MINUTE).
Proof.
  intros Hh H0 Hmax.
  assert (Hopt : in_optimal h = false) by (apply in_optimal_false; exact Hh).
  unfold schedule_email. rewrite Hopt, andb_false_r.
  time_facts now q hr m. rewrite DAY_eq in Hmax.
  destruct (in_optimal hr) eqn:Ho.
  - apply in_optimal_iff in Ho.
    rewrite add_ok by (rewrite MINUTE_eq; lia).
    eexists. split; [reflexivity|]. split; [rewrite MINUTE_eq, DAY_eq; lia|].
    destruct (Z.ltb_spec (m + DT.MINUTE) DT.HOUR) as [Hs|Hs]; rewrite MINUTE_eq, HOUR_eq in Hs.
    + assert (Hx : DT.hour (now + DT.MINUTE) = hr).
      { replace (now + DT.MINUTE) with (q * DT.DAY + hr * DT.HOUR + (m + DT.MINUTE))
          by (rewrite DAY_eq, HOUR_eq, MINUTE_eq; lia).
        apply hour_of; rewrite ?HOUR_eq, ?MINUTE_eq; lia. }
      rewrite Hx. split; [lia|]. intros; lia.
    + assert (Hx : DT.hour (now + DT.MINUTE) = hr + 1).
      { replace (now + DT.MINUTE) with (q * DT.DAY + (hr + 1) * DT.HOUR + (m + DT.MINUTE - DT.HOUR))
          by (rewrite DAY_eq, HOUR_eq, MINUTE_eq; lia).
        apply hour_of; rewrite ?HOUR_eq, ?MINUTE_eq; lia. }
      rewrite Hx. split; [lia|]. intros. split; [lia|reflexivity].
  - apply in_optimal_false in Ho.
    destruct (Z.ltb_spec hr 9) as [Hlt|Hge].
    + eexists. split; [reflexivity|].
      rewrite replace_hour_split. fold q.
      rewrite (hour_of q 9 0) by (rewrite ?HOUR_eq; lia).
      rewrite DAY_eq, HOUR_eq. split; [lia|]. split; [lia|]. lia.
    + rewrite add_ok by (rewrite DAY_eq; lia). cbn [option_map].
      eexists. split; [reflexivity|].
      rewrite replace_hour_split.
      rewrite (hour_of _ 9 0) by (rewrite ?HOUR_eq; lia).
      replace ((now + DT.DAY) / DT.DAY) with (q + 1)
        by (unfold q; rewrite <- Z.div_add by (rewrite DAY_eq; lia); f_equal; ring).
      rewrite DAY_eq, HOUR_eq. split; [lia|]. split; [lia|]. lia.
Qed.

Lemma schedule_email_default_witness :
  ~ (9 <= 0 <= 17) /\
  exists r, schedule_email (DT.at_ 739000 17 59 + 30000000) 0 = Some r /\
    DT.at_ 739000 17 59 + 30000000 < r <= DT.at_ 739000 17 59 + 30000000 + DT.DAY /\
    9 <= DT.hour r <= 18 /\
    (DT.hour r = 18 -> DT.hour (DT.at_ 739000 17 59 + 30000000) = 17 /\
                       r = DT.at_ 739000 17 59 + 30000000 + DT.MINUTE).
Proof.
  split; [lia|].
  apply (schedule_email_default (DT.at_ 739000 17 59 + 30000000) 0);
    unfold DT.at_, DT.MAX, DT.DAY, DT.HOUR, DT.MINUTE; lia.
Defined.

End ScheduleEmailClaims.

(* ------------------------------------------------------------------ *)
(** ** Further properties: Email methods *)

Module EmailMethodFacts.
Import Email EmailMethods.

Lemma EmailStatus_beq_refl (x : EmailStatus) : EmailStatus_beq x x = true.
Proof. destruct x; reflexivity. Qed.

Lemma history_links_snoc (h : list history_entry) (st st' : EmailStatus) (ts : Z) (n : option string) :
  history_links h st = true ->
  history_links (h ++ [mkHistory st st' ts n]) st' = true.
Proof.
  induction h as [|x h IH]; intros H; cbn [app history_links].
  - apply EmailStatus_beq_refl.
  - destruct h as [|y h'].
    + cbn [app to_status from_status]. cbn [history_links] in H. rewrite H.
      cbn [andb]. apply EmailStatus_beq_refl.
    + cbn [app]. cbn [history_links] in H |- *. apply andb_true_iff in H as [H1 H2].
      rewrite H1. cbn [andb]. specialize (IH H2). cbn [app] in IH. exact IH.
Qed.

Lemma update_status_consistent (e : t) (st : EmailStatus) (n : option string) (ts now : Z) :
  history_consistent e = true -> history_consistent (update_status e st n ts now) = true.
Proof. unfold history_consistent, update_status. cbn. apply history_links_snoc. Qed.

Lemma opened_entries_update (e : t) (st : EmailStatus) (n : option string) (ts now : Z) :
  opened_entries (update_status e st n ts now) =
  opened_entries e + (if EmailStatus_beq st OPENED then 1 else 0).
Proof.
  unfold opened_entries, update_status. cbn [status_history to_status].
  rewrite filter_app, length_app. cbn [filter to_status].
  destruct (EmailStatus_beq st OPENED); cbn [List.length]; lia.
Qed.

End EmailMethodFacts.

Module EmailMethodClaims.
Import Email EmailMethods EmailMethodFacts.

(** [update_status], [approve] and [mark_failed] keep [status_history]
    consistent: if each entry's [to_status] is the next entry's
    [from_status] and the last one names the current status, the same
    holds afterwards (a new email, with an empty history, qualifies). *)
Theorem email_methods_keep_history (e : t) :
  history_consistent e = true ->
  (forall st n ts now, history_consistent (update_status e st n ts now) = true) /\
  (forall uid now ts now', history_consistent (fst (approve e uid now ts now')) = true) /\
  (forall msg code now ts now', history_consistent (mark_failed e msg code now ts now') = true).
Proof.
  intros H. split; [|split].
  - intros. apply update_status_consistent, H.
  - intros. apply update_status_consistent, H.
  - intros. unfold mark_failed. apply update_status_consistent. exact H.
Qed.

Lemma email_methods_keep_history_witness :
  let e := update_status (update_status (fresh 1 None DRAFT) APPROVED None 0 0)
             SCHEDULED None 1 1 in
  history_consistent e = true /\
  ((forall st n ts now,
      history_consistent (update_status e st n ts now) = true) /\
   (forall uid now ts now',
      history_consistent (fst (approve e uid now ts now')) = true) /\
   (forall msg code now ts now',
      history_consistent (mark_failed e msg code now ts now') = true)).
Proof.
  cbv zeta. split; [reflexivity|]. apply email_methods_keep_history. reflexivity.
Defined.

(** [open_count] moves in step with the history: [update_status],
    [approve] and [mark_failed] change [open_count] and the number of
    history entries recording an opening by the same amount (one for a
    move to [opened], re-openings included, zero otherwise).  A new
    email thus always has [open_count] equal to its number of openings. *)
Theorem open_count_tracks_history (e : t) :
  (forall st n ts now,
     let e' := update_status e st n ts now in
     open_count e' - opened_entries e' = open_count e - opened_entries e) /\
  (forall uid now ts now',
     let e' := fst (approve e uid now ts now') in
     open_count e' - opened_entries e' = open_count e - opened_entries e) /\
  (forall msg code now ts now',
     let e' := mark_failed e msg code now ts now' in
     open_count e' - opened_entries e' = open_count e - opened_entries e).
Proof.
  assert (H1 : forall st n ts now,
     open_count (update_status e st n ts now) - opened_entries (update_status e st n ts now)
     = open_count e - opened_entries e).
  { intros. rewrite opened_entries_update. unfold update_status at 1. cbn [open_count].
    destruct (EmailStatus_beq st OPENED); lia. }
  split; [exact H1|split]; intros; cbv zeta.
  - exact (H1 _ _ _ _).
  - unfold e', mark_failed. cbv zeta. rewrite opened_entries_update.
    unfold update_status at 1. cbn [open_count EmailStatus_beq].
    unfold opened_entries. cbn [status_history]. lia.
Qed.

(** The first opening time is kept: once [opened_at] is set, no call of
    [update_status] (re-openings included), [approve] or [mark_failed]
    changes it; the first move to [opened] sets [opened_at] and
    [last_opened_at] to the same time. *)
Theorem opened_at_first_open (e : t) :
  (forall o, opened_at e = Some o ->
     (forall st n ts now, opened_at (update_status e st n ts now) = Some o) /\
     (forall uid now ts now', opened_at (fst (approve e uid now ts now')) = Some o) /\
     (forall msg code now ts now', opened_at (mark_failed e msg code now ts now') = Some o)) /\
  (opened_at e = None -> forall n ts now,
     opened_at (update_status e OPENED n ts now) = Some now /\
     last_opened_at (update_status e OPENED n ts now) = Some now).
Proof.
  split.
  - intros o Ho. split; [|split]; intros.
    + unfold update_status. cbn [opened_at]. rewrite Ho.
      destruct (EmailStatus_beq st OPENED); reflexivity.
    + unfold approve, update_status. cbn [fst opened_at EmailStatus_beq]. exact Ho.
    + unfold mark_failed, update_status. cbn [opened_at EmailStatus_beq]. exact Ho.
  - intros Hn n ts now. unfold update_status. cbn [opened_at last_opened_at EmailStatus_beq].
    rewrite Hn. split; reflexivity.
Qed.

End EmailMethodClaims.


(* ------------------------------------------------------------------ *)
(** ** Further properties: update_counts *)

Module BatchClaims.
Import BatchManager StoreFacts.

(** [EmailBatch.update_counts] keeps the batch's id and status (it never
    completes a batch), does not depend on the counter values it
    overwrites, and is idempotent. *)
Theorem update_counts_idempotent (es : list Email.t) (b : EmailBatch.t) :
  EmailBatch.id (EmailBatch.update_counts es b) = EmailBatch.id b /\
  EmailBatch.status (EmailBatch.update_counts es b) = EmailBatch.status b /\
  (forall b', EmailBatch.id b' = EmailBatch.id b -> EmailBatch.status b' = EmailBatch.status b ->
     EmailBatch.update_counts es b' = EmailBatch.update_counts es b) /\
  EmailBatch.update_counts es (EmailBatch.update_counts es b) = EmailBatch.update_counts es b.
Proof.
  assert (Hsame : forall b', EmailBatch.id b' = EmailBatch.id b ->
            EmailBatch.status b' = EmailBatch.status b ->
            EmailBatch.update_counts es b' = EmailBatch.update_counts es b).
  { intros b' H1 H2. unfold EmailBatch.update_counts. rewrite H1, H2. reflexivity. }
  destruct (CountFacts.fold_id_status
              (EmailBatch.status_groups (EmailBatch.id b) es)
              (EmailBatch.mkBatch (EmailBatch.id b) 0 0 0 0 0 0 0 0 (EmailBatch.status b)))
    as [H1 H2].
  split; [exact H1|]. split; [exact H2|]. split; [exact Hsame|].
  apply Hsame; assumption.
Qed.

End BatchClaims.

(* ------------------------------------------------------------------ *)
(** ** Further properties: approve_batch and get_batch_emails *)

Module ApproveFacts.
Import BatchManager BatchOps StoreFacts.

Lemma approve_batch_eq (s : Store) (bid : nat) (b : EmailBatch.t) :
  get_batch s bid = Some b -> EmailBatch.status b = "draft"%string ->
  approve_batch s bid = (put_batch s (batch_with_status b "approved"), true).
Proof.
  intros Hb Hs. unfold approve_batch. rewrite Hb, Hs. reflexivity.
Qed.

Lemma approve_batch_not_draft (s : Store) (bid : nat) (b : EmailBatch.t) :
  get_batch s bid = Some b -> EmailBatch.status b <> "draft"%string -> approve_batch s bid = (s, false).
Proof.
  intros Hb Hs. unfold approve_batch. rewrite Hb.
  destruct (String.eqb_spec (EmailBatch.status b) "draft"); [contradiction|reflexivity].
Qed.

(** A status string that is not empty and names no member of
    [EmailStatus] selects no row. *)
Lemma filter_status_no_member (s : Store) (bid : nat) (x : string) :
  x <> ""%string -> ~ In x (map status_name all_statuses) ->
  get_batch_emails s bid (Some x) = [].
Proof.
  intros Hne Hno. unfold get_batch_emails.
  induction (emails s) as [|e es IH]; [reflexivity|]. cbn [filter].
  destruct (String.eqb_spec x "") as [|_]; [contradiction|].
  destruct (String.eqb_spec (status_name (Email.status e)) x) as [Heq|_].
  - exfalso. apply Hno. rewrite <- Heq. apply in_map. destruct (Email.status e); cbn; tauto.
  - rewrite andb_false_r. exact IH.
Qed.

Lemma get_batch_emails_draft_empty (s : Store) (bid : nat) :
  get_batch_emails s bid (Some "draft"%string) = [].
Proof.
  apply filter_status_no_member; [discriminate|].
  cbn. intros H. repeat destruct H as [H|H]; try discriminate H. exact H.
Qed.



End ApproveFacts.

Module ApproveClaims.
Import BatchManager BatchOps StoreFacts ApproveFacts.

(** [approve_batch] succeeds exactly when the batch exists and its status
    is ['draft']; when it fails it changes nothing. *)
Theorem approve_batch_guard (s : Store) (bid : nat) :
  (snd (approve_batch s bid) = true <->
   exists b, get_batch s bid = Some b /\ EmailBatch.status b = "draft"%string) /\
  (snd (approve_batch s bid) = false -> fst (approve_batch s bid) = s).
Proof.
  unfold approve_batch. destruct (get_batch s bid) as [b|].
  - destruct (String.eqb_spec (EmailBatch.status b) "draft") as [Hd|Hd]; cbn.
    + split; [|discriminate]. split; [eauto|reflexivity].
    + split; [|reflexivity]. split; [discriminate|].
      intros (b' & Hb' & Hs). injection Hb' as <-. contradiction.
  - cbn. split; [|reflexivity]. split; [discriminate|]. intros (b & Hb & _). discriminate.
Qed.

(** A successful [approve_batch] sets the batch to ['approved'] without
    touching its counters, leaves every email row as it was (its draft
    emails stay [draft]) and every other batch alone, and cannot be
    repeated: a second call fails. *)
Theorem approve_batch_effect (s s' : Store) (bid : nat) :
  approve_batch s bid = (s', true) ->
  emails s' = emails s /\
  (exists b, get_batch s bid = Some b /\ EmailBatch.status b = "draft"%string /\
     get_batch s' bid = Some (batch_with_status b "approved")) /\
  (forall k, k <> bid -> get_batch s' k = get_batch s k) /\
  approve_batch s' bid = (s', false).
Proof.
  intros H.
  destruct (proj1 (proj1 (approve_batch_guard s bid))) as (b & Hb & Hs);
    [rewrite H; reflexivity|].
  rewrite (approve_batch_eq s bid b Hb Hs) in H. injection H as <-.
  pose proof (get_batch_id _ _ _ Hb) as Hid.
  assert (Hgb : get_batch (put_batch s (batch_with_status b "approved")) bid =
                Some (batch_with_status b "approved"))
    by (apply (get_put_batch_same s bid b); [exact Hb | exact Hid]).
  split; [reflexivity|]. split; [exists b; auto|]. split.
  - intros k Hk. apply get_put_batch_other. cbn. congruence.
  - apply (approve_batch_not_draft _ _ _ Hgb). cbn. discriminate.
Qed.

Lemma approve_batch_effect_witness :
  let s0 := mkStore [Email.fresh 1 (Some 1%nat) DRAFT; Email.fresh 2 (Some 1%nat) DRAFT;
                     Email.fresh 3 (Some 2%nat) DRAFT]
                    [EmailBatch.mkBatch 1 2 2 0 0 0 0 0 0 "draft";
                     EmailBatch.mkBatch 2 1 1 0 0 0 0 0 0 "draft"] in
  approve_batch s0 1 = (fst (approve_batch s0 1), true) /\
  (emails (fst (approve_batch s0 1)) = emails s0 /\
   (exists b, get_batch s0 1 = Some b /\ EmailBatch.status b = "draft"%string /\
      get_batch (fst (approve_batch s0 1)) 1 = Some (batch_with_status b "approved")) /\
   (forall k, k <> 1%nat -> get_batch (fst (approve_batch s0 1)) k = get_batch s0 k) /\
   approve_batch (fst (approve_batch s0 1)) 1 = (fst (approve_batch s0 1), false)).
Proof.
  cbv zeta. split; [reflexivity|]. apply approve_batch_effect. reflexivity.
Defined.

(** [get_batch_emails(batch_id, status)] compares the stored member name
    with the given string: a nonempty string that names no member of
    [EmailStatus] (such as ['draft'] or ['approved'], the lower-case
    values) selects no email, whatever the table holds. *)
Theorem get_batch_emails_no_member (s : Store) (bid : nat) (x : string) :
  x <> ""%string -> ~ In x (map status_name all_statuses) ->
  get_batch_emails s bid (Some x) = [].
Proof. exact (filter_status_no_member s bid x). Qed.

Lemma get_batch_emails_no_member_witness :
  "approved"%string <> ""%string /\
  ~ In "approved"%string (map status_name all_statuses) /\
  get_batch_emails Fixtures.two_approved 1 (Some "approved"%string) = [].
Proof.
  assert (H1 : "approved"%string <> ""%string) by discriminate.
  assert (H2 : ~ In "approved"%string (map status_name all_statuses))
    by (cbn; intros H; repeat destruct H as [H|H]; try discriminate H; exact H).
  split; [exact H1|]. split; [exact H2|].
  exact (get_batch_emails_no_member _ _ _ H1 H2).
Defined.

End ApproveClaims.

(* ------------------------------------------------------------------ *)
(** ** Delivery: claim, completion, failure *)

Module DeliveryClaims.
Import BatchManager EmailTasks BatchOps StoreFacts ApproveFacts Fixtures.





(** C6 (amended).  [Email.mark_failed] records a failure: the email is
    [failed], [retry_count] is one higher than before, [error_message] and
    [error_code] are the given ones, [last_error] is the time of the call,
    and one history entry [old status -> failed] with the note
    ["Failed: " ++ message] is appended. *)
Theorem mark_failed_effect (e : Email.t) (msg : string) (code : option string)
    (now ts now' : Z) :
  let e' := Email.mark_failed e msg code now ts now' in
  Email.status e' = FAILED /\
  Email.retry_count e' = Email.retry_count e + 1 /\
  Email.error_message e' = Some msg /\
  Email.error_code e' = code /\
  Email.last_error e' = Some now /\
  Email.status_history e' =
    Email.status_history e ++
      [Email.mkHistory (Email.status e) FAILED ts (Some ("Failed: " ++ msg)%string)].
Proof. cbv zeta. repeat split; reflexivity. Qed.

(** C6 counterexample: the first failure of a fresh email (retry count 0)
    leaves [retry_count = 1], not 0. *)
Lemma mark_failed_retry_cex :
  Email.retry_count
    (Email.mark_failed (Email.fresh 1 (Some 1%nat) SENDING) "550 mailbox unavailable"
       None 0 0 0) = 1.
Proof. reflexivity. Qed.

End DeliveryClaims.

(* ------------------------------------------------------------------ *)
(** ** Further properties: the keyword-overlap fallback score *)

Module FallbackFacts.
Import Matching MatchingFacts.
Open Scope Q_scope.

Lemma nodup_same_length (a b : list string) :
  NoDup a -> NoDup b -> (forall x, In x a <-> In x b) -> List.length a = List.length b.
Proof.
  intros Ha Hb H. apply Nat.le_antisymm; apply NoDup_incl_length; auto; intros x; apply H.
Qed.

Lemma existsb_eqb_In (x : string) (l : list string) : existsb (String.eqb x) l = true <-> In x l.
Proof.
  rewrite existsb_exists. split.
  - intros (y & Hy & Heq). apply String.eqb_eq in Heq. subst. exact Hy.
  - intros Hx. exists x. split; [exact Hx | apply String.eqb_refl].
Qed.

Lemma intersection_In (x : string) (a b : list string) :
  In x (intersection a b) <-> In x a /\ In x b.
Proof. unfold intersection. rewrite filter_In, existsb_eqb_In. reflexivity. Qed.

Lemma union_In (x : string) (a b : list string) : In x (union a b) <-> In x a \/ In x b.
Proof. unfold union. rewrite nodup_In, in_app_iff. reflexivity. Qed.

Lemma intersection_NoDup (a b : list string) : NoDup a -> NoDup (intersection a b).
Proof. apply NoDup_filter. Qed.

Lemma union_NoDup (a b : list string) : NoDup (union a b).
Proof. apply NoDup_nodup. Qed.

Lemma ratio_self (k : nat) :
  round2 (inject_Z (Z.of_nat (S k)) / inject_Z (Z.of_nat (S k)) * 100) == 100.
Proof.
  change (Z.of_nat (S k)) with (Z.pos (Pos.of_succ_nat k)).
  set (p := Pos.of_succ_nat k).
  unfold round2, Qdiv, Qmult, Qinv, inject_Z. cbn [Qnum Qden].
  rewrite Pos.mul_1_l, !Pos.mul_1_r, Z.mul_1_r.
  replace (Z.pos p * 100 * 100)%Z with (10000 * Z.pos p)%Z by lia.
  rewrite Z.mod_mul, Z.div_mul by lia. cbn. reflexivity.
Qed.

Section Sets.
Variable lower : string -> string.

Lemma py_set_In (x : string) (u : list string) : In x (py_set lower u) <-> In x (map lower u).
Proof. unfold py_set. apply nodup_In. Qed.

Lemma py_set_NoDup (u : list string) : NoDup (py_set lower u).
Proof. apply NoDup_nodup. Qed.

(** The score of two present lists is a function of the two sizes. *)
Lemma fallback_score_by_sizes (u1 p1 u2 p2 : list string) :
  List.length (intersection (py_set lower u1) (py_set lower p1)) =
    List.length (intersection (py_set lower u2) (py_set lower p2)) ->
  List.length (union (py_set lower u1) (py_set lower p1)) =
    List.length (union (py_set lower u2) (py_set lower p2)) ->
  fallback_score lower (Some u1) (Some p1) = fallback_score lower (Some u2) (Some p2).
Proof. intros Hi Hu. cbn [fallback_score]. rewrite Hi, Hu. reflexivity. Qed.

Lemma fallback_score_sets_eq (u1 u2 p1 p2 : list string) :
  (forall x, In x (map lower u1) <-> In x (map lower u2)) ->
  (forall x, In x (map lower p1) <-> In x (map lower p2)) ->
  fallback_score lower (Some u1) (Some p1) = fallback_score lower (Some u2) (Some p2).
Proof.
  intros Hu Hp. apply fallback_score_by_sizes.
  - apply nodup_same_length; try apply intersection_NoDup, py_set_NoDup.
    intros x. rewrite !intersection_In, !py_set_In, Hu, Hp. reflexivity.
  - apply nodup_same_length; try apply union_NoDup.
    intros x. rewrite !union_In, !py_set_In, Hu, Hp. reflexivity.
Qed.

End Sets.

End FallbackFacts.

Module FallbackClaims.
Import Matching MatchingFacts FallbackFacts.
Open Scope Q_scope.

Section Claims.
(** [str.lower]; the properties hold for every lower-casing function. *)
Variable lower : string -> string.

(** [_fallback_matching] is symmetric: swapping the user's and the
    professor's interest lists gives the same score (also when one of them
    is [None]). *)
Theorem fallback_score_sym (u p : option (list string)) :
  fallback_score lower u p = fallback_score lower p u.
Proof.
  destruct u as [u|], p as [p|]; try reflexivity.
  apply fallback_score_by_sizes.
  - apply nodup_same_length; try apply intersection_NoDup, py_set_NoDup.
    intros x. rewrite !intersection_In. tauto.
  - apply nodup_same_length; try apply union_NoDup.
    intros x. rewrite !union_In. tauto.
Qed.

(** The fallback score of two present lists depends only on the sets of
    their lower-cased entries: duplicates, order and letter case do not
    matter. *)
Theorem fallback_score_sets (u1 u2 p1 p2 : list string) :
  (forall x, In x (map lower u1) <-> In x (map lower u2)) ->
  (forall x, In x (map lower p1) <-> In x (map lower p2)) ->
  fallback_score lower (Some u1) (Some p1) = fallback_score lower (Some u2) (Some p2).
Proof. exact (fallback_score_sets_eq lower u1 u2 p1 p2). Qed.

(** When both lists are present, nonempty and name the same interests up
    to letter case, the fallback score is 100. *)
Theorem fallback_score_full (u p : list string) :
  u <> [] -> (forall x, In x (map lower u) <-> In x (map lower p)) ->
  fallback_score lower (Some u) (Some p) == 100.
Proof.
  intros Hne Hup.
  rewrite (fallback_score_sets_eq lower u u p u); [| reflexivity | intros x; symmetry; apply Hup].
  cbn [fallback_score].
  assert (Hi : List.length (intersection (py_set lower u) (py_set lower u)) =
               List.length (py_set lower u)).
  { apply nodup_same_length; [apply intersection_NoDup, py_set_NoDup | apply py_set_NoDup|].
    intros x. rewrite intersection_In. tauto. }
  assert (Hu : List.length (union (py_set lower u) (py_set lower u)) =
               List.length (py_set lower u)).
  { apply nodup_same_length; [apply union_NoDup | apply py_set_NoDup|].
    intros x. rewrite union_In. tauto. }
  rewrite Hi, Hu.
  destruct (py_set lower u) as [|y ys] eqn:Hs.
  - exfalso. destruct u as [|x xs]; [contradiction|].
    assert (Hin : In (lower x) (py_set lower (x :: xs)))
      by (apply py_set_In; left; reflexivity).
    rewrite Hs in Hin. destruct Hin.
  - cbn [List.length Nat.ltb Nat.leb]. apply ratio_self.
Qed.

(** When the two present lists share no interest up to letter case, the
    fallback score is 0. *)
Theorem fallback_score_disjoint (u p : list string) :
  (forall x, In x (map lower u) -> ~ In x (map lower p)) ->
  fallback_score lower (Some u) (Some p) == 0.
Proof.
  intros Hd. cbn [fallback_score]. apply round2_zero.
  assert (Hi : intersection (py_set lower u) (py_set lower p) = []).
  { destruct (intersection (py_set lower u) (py_set lower p)) as [|x xs] eqn:E;
      [reflexivity|].
    exfalso.
    assert (Hx : In x (intersection (py_set lower u) (py_set lower p)))
      by (rewrite E; left; reflexivity).
    rewrite intersection_In, !py_set_In in Hx. exact (Hd x (proj1 Hx) (proj2 Hx)). }
  rewrite Hi. cbn [List.length Z.of_nat].
  destruct (Nat.ltb 0 _); [apply ratio_zero | reflexivity].
Qed.

End Claims.

(** The witnesses use ASCII text, on which [str.lower] is [ascii_lower]. *)
Lemma fallback_score_sets_witness :
  (forall x, In x (map ascii_lower ["ML"; "Vision"; "ml"]%string) <->
             In x (map ascii_lower ["vision"; "ml"]%string)) /\
  (forall x, In x (map ascii_lower ["Robotics"]%string) <->
             In x (map ascii_lower ["ROBOTICS"; "robotics"]%string)) /\
  fallback_score ascii_lower (Some ["ML"; "Vision"; "ml"]%string) (Some ["Robotics"]%string) =
  fallback_score ascii_lower (Some ["vision"; "ml"]%string)
    (Some ["ROBOTICS"; "robotics"]%string).
Proof.
  assert (H1 : forall x, In x (map ascii_lower ["ML"; "Vision"; "ml"]%string) <->
                         In x (map ascii_lower ["vision"; "ml"]%string))
    by (intros x; vm_compute; tauto).
  assert (H2 : forall x, In x (map ascii_lower ["Robotics"]%string) <->
                         In x (map ascii_lower ["ROBOTICS"; "robotics"]%string))
    by (intros x; vm_compute; tauto).
  split; [exact H1|]. split; [exact H2|].
  exact (fallback_score_sets ascii_lower _ _ _ _ H1 H2).
Defined.

Lemma fallback_score_full_witness :
  ["Deep Learning"; "Vision"]%string <> [] /\
  (forall x, In x (map ascii_lower ["Deep Learning"; "Vision"]%string) <->
             In x (map ascii_lower ["vision"; "DEEP LEARNING"]%string)) /\
  fallback_score ascii_lower (Some ["Deep Learning"; "Vision"]%string)
    (Some ["vision"; "DEEP LEARNING"]%string) == 100.
Proof.
  assert (H0 : ["Deep Learning"; "Vision"]%string <> []) by discriminate.
  assert (H1 : forall x, In x (map ascii_lower ["Deep Learning"; "Vision"]%string) <->
                         In x (map ascii_lower ["vision"; "DEEP LEARNING"]%string))
    by (intros x; vm_compute; tauto).
  split; [exact H0|]. split; [exact H1|].
  exact (fallback_score_full ascii_lower _ _ H0 H1).
Defined.

Lemma fallback_score_disjoint_witness :
  (forall x, In x (map ascii_lower ["Robotics"]%string) ->
             ~ In x (map ascii_lower ["NLP"; "Vision"]%string)) /\
  fallback_score ascii_lower (Some ["Robotics"]%string) (Some ["NLP"; "Vision"]%string) == 0.
Proof.
  assert (H : forall x, In x (map ascii_lower ["Robotics"]%string) ->
                        ~ In x (map ascii_lower ["NLP"; "Vision"]%string)).
  { vm_compute. intros x [<-|[]] [H|[H|[]]]; discriminate H. }
  split; [exact H|]. exact (fallback_score_disjoint ascii_lower _ _ H).
Defined.

End FallbackClaims.
